(** * convert_uppercase.py: a shallow embedding and its properties

    The script reads [target.yaml] in text mode, keeps the lines whose first
    character is lowercase, capitalizes the first two whitespace-delimited
    tokens of each such line, and writes the converted lines back to the same
    path.

    Python strings are sequences of Unicode code points; a code point is an
    [N], a [str] is a list of them.  The interpreter's character tables that
    the script consults through [str.islower] and [str.capitalize] are not
    part of the repository: they are taken as a parameter ([unicode_db]).
    The whitespace table used by [str.split] is small and is written out in
    full.  Exceptions are values of an error type; the file is a component of
    an explicit world that the program threads through. *)

From Stdlib Require Import String Ascii List NArith Arith Bool Lia.
Import ListNotations.

Local Open Scope N_scope.

(** ** Code points and strings *)

Definition codepoint := N.
Definition str := list codepoint.

Definition LF : codepoint := 10.
Definition CR : codepoint := 13.
Definition SPACE : codepoint := 32.

(** A literal of ASCII text as a [str]. *)
Definition py (s : string) : str := map N_of_ascii (list_ascii_of_string s).

(** ** Exceptions *)

Inductive index_kind :=
| StringIndex      (* "string index out of range" *)
| ListIndex        (* "list index out of range" *)
| ListAssignment.  (* "list assignment index out of range" *)

Inductive exn :=
| IndexError (k : index_kind)
| FileNotFoundError.

Inductive result (A : Type) :=
| Ok (a : A)
| Raise (e : exn).
Arguments Ok {A} a.
Arguments Raise {A} e.

Definition rbind {A B} (r : result A) (k : A -> result B) : result B :=
  match r with
  | Ok a => k a
  | Raise e => Raise e
  end.

Declare Scope result_scope.
Delimit Scope result_scope with result.
Notation "x <- c ;; k" := (rbind c (fun x => k))
  (at level 61, c at next level, right associativity) : result_scope.

(** ** Indexing with a non-negative index *)

(** [s[i]] on a string. *)
Definition str_getitem (s : str) (i : nat) : result codepoint :=
  match nth_error s i with
  | Some c => Ok c
  | None => Raise (IndexError StringIndex)
  end.

(** [l[i]] on a list. *)
Definition list_getitem {A} (l : list A) (i : nat) : result A :=
  match nth_error l i with
  | Some a => Ok a
  | None => Raise (IndexError ListIndex)
  end.

(** [l[i] = v] on a list: the list with position [i] replaced. *)
Fixpoint list_setitem {A} (l : list A) (i : nat) (v : A) : result (list A) :=
  match l, i with
  | [], _ => Raise (IndexError ListAssignment)
  | _ :: r, O => Ok (v :: r)
  | a :: r, S j =>
      match list_setitem r j v with
      | Ok r' => Ok (a :: r')
      | Raise e => Raise e
      end
  end.

(** ** The character tables of the interpreter *)

Record unicode_db := {
  PyUnicode_IsLowercase : codepoint -> bool;
  PyUnicode_ToTitleFull : codepoint -> str;
  PyUnicode_ToLowerFull : codepoint -> str;
  PyUnicode_IsCased : codepoint -> bool;
  PyUnicode_IsCaseIgnorable : codepoint -> bool
}.

(** [Py_UNICODE_ISSPACE]: the code points [str.split()] and [str.isspace()]
    treat as whitespace. *)
Definition isspace (c : codepoint) : bool :=
  ((9 <=? c) && (c <=? 13)) || ((28 <=? c) && (c <=? 32))
  || (c =? 0x85) || (c =? 0xA0) || (c =? 0x1680)
  || ((0x2000 <=? c) && (c <=? 0x200A))
  || (c =? 0x2028) || (c =? 0x2029) || (c =? 0x202F) || (c =? 0x205F)
  || (c =? 0x3000).

(** ** String methods *)

(** [s.split()]: the maximal runs of non-whitespace characters of [s].
    [cur] is the token being read, last character first. *)
Fixpoint split_from (cur : str) (s : str) : list str :=
  match s with
  | [] => match cur with
          | [] => []
          | _ :: _ => [rev cur]
          end
  | c :: r =>
      if isspace c then
        match cur with
        | [] => split_from [] r
        | _ :: _ => rev cur :: split_from [] r
        end
      else split_from (c :: cur) r
  end.

Definition split (s : str) : list str := split_from [] s.

(** [sep.join(words)]. *)
Fixpoint join (sep : str) (words : list str) : str :=
  match words with
  | [] => []
  | [w] => w
  | w :: ws => w ++ sep ++ join sep ws
  end.

Section Capitalize.
Variable U : unicode_db.

(** [c.islower()] for the one-character string [c]. *)
Definition islower (c : codepoint) : bool := PyUnicode_IsLowercase U c.

Definition significant (c : codepoint) : bool :=
  negb (PyUnicode_IsCaseIgnorable U c).

(** The lowercase form of a capital sigma at position [i] of [data]: the
    final form when a cased character precedes it and none follows it,
    case-ignorable characters being skipped on both sides. *)
Definition handle_capital_sigma (data : str) (i : nat) : codepoint :=
  let before :=
    match find significant (rev (firstn i data)) with
    | Some c => PyUnicode_IsCased U c
    | None => false
    end in
  let after :=
    match find significant (skipn (S i) data) with
    | Some c => negb (PyUnicode_IsCased U c)
    | None => true
    end in
  if before && after then 0x3C2 else 0x3C3.

Definition lower_ucs4 (data : str) (i : nat) (c : codepoint) : str :=
  if c =? 0x3A3 then [handle_capital_sigma data i]
  else PyUnicode_ToLowerFull U c.

(** The lowercase forms of the characters [rest], which sit at positions
    [i], [i+1], ... of [data]. *)
Fixpoint lower_from (data : str) (i : nat) (rest : str) : str :=
  match rest with
  | [] => []
  | c :: r => lower_ucs4 data i c ++ lower_from data (S i) r
  end.

(** [s.capitalize()]: the first character in title case (upper case before
    Python 3.8; the two differ on a few ligatures and digraphs only), the
    others in lower case. *)
Definition capitalize (s : str) : str :=
  match s with
  | [] => []
  | c :: rest => PyUnicode_ToTitleFull U c ++ lower_from s 1 rest
  end.
End Capitalize.

(** ** Text files *)

(** Universal newlines on reading: CR LF and a lone CR both become LF. *)
Fixpoint universal_newlines (s : str) : str :=
  match s with
  | [] => []
  | c :: r =>
      if c =? CR then
        match r with
        | d :: r' => if d =? LF then LF :: universal_newlines r'
                     else LF :: universal_newlines r
        | [] => [LF]
        end
      else c :: universal_newlines r
  end.

(** The lines of a text, each with its line end; the last one may lack it. *)
Fixpoint splitlines_keepends (s : str) : list str :=
  match s with
  | [] => []
  | c :: r =>
      if c =? LF then [c] :: splitlines_keepends r
      else match splitlines_keepends r with
           | [] => [[c]]
           | l :: ls => (c :: l) :: ls
           end
  end.

(** [f.readlines()] on a file opened in text mode with contents [s]. *)
Definition readlines (s : str) : list str :=
  splitlines_keepends (universal_newlines s).

(** ** The world: the file at the path ['target.yaml'] and a log of the
    operations performed on it *)

Inductive mode := ModeR | ModeW.

Inductive event :=
| EvOpen (m : mode)
| EvRead
| EvWrite (s : str)
| EvClose.

(** [target] is [None] when no file exists at the path; an existing file is
    a readable and writable text file, given by its text.  Written text is
    stored as it is (the line separator of the platform is LF). *)
Record world := {
  target : option str;
  trace : list event
}.

Definition io (A : Type) := world -> result A * world.

Definition ret {A} (a : A) : io A := fun w => (Ok a, w).

Definition bind {A B} (c : io A) (k : A -> io B) : io B :=
  fun w =>
    match c w with
    | (Ok a, w') => k a w'
    | (Raise e, w') => (Raise e, w')
    end.

Definition lift {A} (r : result A) : io A := fun w => (r, w).

Definition log (e : event) (w : world) : world :=
  {| target := target w; trace := trace w ++ [e] |}.

Declare Scope io_scope.
Delimit Scope io_scope with io.
Notation "x <- c ;; k" := (bind c (fun x => k))
  (at level 61, c at next level, right associativity) : io_scope.

(** [open('target.yaml', 'r')]: the handle gives access to the text of the
    file. *)
Definition open_r : io str :=
  fun w =>
    match target w with
    | Some s => (Ok s, log (EvOpen ModeR) w)
    | None => (Raise FileNotFoundError, w)
    end.

(** [open('target.yaml', 'w')]: creates the file or truncates it. *)
Definition open_w : io unit :=
  fun w => (Ok tt, {| target := Some []; trace := trace w ++ [EvOpen ModeW] |}).

Definition close : io unit := fun w => (Ok tt, log EvClose w).

(** [with open(...) as f: body]: the file is closed when the body is left,
    normally or by an exception, which then propagates. *)
Definition with_open {H A} (opn : io H) (body : H -> io A) : io A :=
  fun w =>
    match opn w with
    | (Raise e, w') => (Raise e, w')
    | (Ok f, w') =>
        let (r, w'') := body f w' in
        (r, snd (close w''))
    end.

Definition f_readlines (f : str) : io (list str) :=
  fun w => (Ok (readlines f), log EvRead w).

Definition f_write (s : str) : io unit :=
  fun w =>
    (Ok tt, {| target := Some (match target w with
                               | Some old => old ++ s
                               | None => s
                               end);
               trace := trace w ++ [EvWrite s] |}).

(** [f.writelines(output)]: writes the strings one after the other. *)
Fixpoint f_writelines (output : list str) : io unit :=
  match output with
  | [] => ret tt
  | s :: rest => (_ <- f_write s ;; f_writelines rest)%io
  end.

(** ** The script *)

Section Script.
Variable U : unicode_db.

Local Open Scope result_scope.

(** The body of the [for] loop at index [i], with the list [output] built
    so far; it gives the list after the iteration. *)
Definition loop_body (lines : list str) (output : list str) (i : nat)
  : result (list str) :=
  line <- list_getitem lines i ;;
  c <- str_getitem line 0 ;;
  if islower U c then
    line <- list_getitem lines i ;;
    let words := split line in
    w0 <- list_getitem words 0 ;;
    words <- list_setitem words 0 (capitalize U w0) ;;
    w1 <- list_getitem words 1 ;;
    words <- list_setitem words 1 (capitalize U w1) ;;
    let converted := join [SPACE] words in
    let converted := converted ++ [LF] in
    Ok (output ++ [converted])
  else Ok output.

(** [for i in idxs: body]. *)
Fixpoint for_in (body : list str -> nat -> result (list str))
    (output : list str) (idxs : list nat) : result (list str) :=
  match idxs with
  | [] => Ok output
  | i :: rest => output' <- body output i ;; for_in body output' rest
  end.

(** Lines 7 to 20: [output = []], then the loop over
    [range(len(lines))]. *)
Definition transform (lines : list str) : result (list str) :=
  for_in (loop_body lines) [] (seq 0 (length lines)).

Local Close Scope result_scope.

(** The whole script. *)
Definition main : io unit :=
  (output <- with_open open_r (fun f =>
               lines <- f_readlines f ;;
               lift (transform lines)) ;;
   with_open open_w (fun _ => f_writelines output))%io.

(** A run on an existing file with text [content]. *)
Definition run (content : str) : result unit * world :=
  main {| target := Some content; trace := [] |}.
End Script.

(** ** A concrete character table

    [latin1_db] agrees with the Unicode character database on the code
    points U+0000 to U+00FF.  The code points above are treated as the
    ideographs are: they are not lowercase and are their own title and lower
    case forms. *)

Definition in_range (lo hi c : codepoint) : bool := (lo <=? c) && (c <=? hi).

Definition latin1_islower (c : codepoint) : bool :=
  in_range 97 122 c || (c =? 170) || (c =? 181) || (c =? 186)
  || in_range 223 246 c || in_range 248 255 c.

Definition latin1_isupper (c : codepoint) : bool :=
  in_range 65 90 c || in_range 192 214 c || in_range 216 222 c.

Definition latin1_totitle (c : codepoint) : str :=
  if in_range 97 122 c then [c - 32]
  else if c =? 181 then [924]
  else if c =? 223 then [83; 115]
  else if in_range 224 246 c || in_range 248 254 c then [c - 32]
  else if c =? 255 then [376]
  else [c].

Definition latin1_tolower (c : codepoint) : str :=
  if latin1_isupper c then [c + 32] else [c].

Definition latin1_case_ignorable (c : codepoint) : bool :=
  existsb (N.eqb c) [39; 46; 58; 94; 96; 168; 173; 175; 180; 183; 184].

Definition latin1_db : unicode_db := {|
  PyUnicode_IsLowercase := latin1_islower;
  PyUnicode_ToTitleFull := latin1_totitle;
  PyUnicode_ToLowerFull := latin1_tolower;
  PyUnicode_IsCased := fun c => latin1_islower c || latin1_isupper c;
  PyUnicode_IsCaseIgnorable := latin1_case_ignorable
|}.

(** Upper and lower case of the ASCII letters. *)
Definition ascii_upper (c : codepoint) : codepoint :=
  if in_range 97 122 c then c - 32 else c.

Definition ascii_lower (c : codepoint) : codepoint :=
  if in_range 65 90 c then c + 32 else c.

Local Close Scope N_scope.

(** ** The loop, line by line *)

Section LineSpec.
Variable U : unicode_db.

(** The test of line 11 as a predicate on lines. *)
Definition first_is_lower (l : str) : bool :=
  match l with
  | c :: _ => islower U c
  | [] => false
  end.

(** The tokens of a line with the first and the second capitalized and
    the others as they are. *)
Definition capitalize_first_two (words : list str) : list str :=
  match words with
  | w0 :: w1 :: rest => capitalize U w0 :: capitalize U w1 :: rest
  | [w0] => [capitalize U w0]
  | [] => []
  end.

(** The output line of the specification for the input line [l]. *)
Definition converted (l : str) : str :=
  join [SPACE] (capitalize_first_two (split l)) ++ [LF].

Definition enough_tokens (l : str) : bool := 2 <=? length (split l).

(** The lines on which an iteration goes through. *)
Definition passes (l : str) : bool :=
  negb (first_is_lower l) || enough_tokens l.

(** A line on which the loop stops. *)
Definition short_line (l : str) : Prop :=
  first_is_lower l = true /\ length (split l) < 2.

(** What one iteration does with the line [l]. *)
Definition step (l : str) (output : list str) : result (list str) :=
  match l with
  | [] => Raise (IndexError StringIndex)
  | c :: _ =>
      if islower U c then
        if enough_tokens l then Ok (output ++ [converted l])
        else Raise (IndexError ListIndex)
      else Ok output
  end.

Fixpoint process (lines : list str) (output : list str)
  : result (list str) :=
  match lines with
  | [] => Ok output
  | l :: rest =>
      match step l output with
      | Ok output' => process rest output'
      | Raise e => Raise e
      end
  end.

(** How many lines pass the test of line 11. *)
Fixpoint count_lower (lines : list str) : nat :=
  match lines with
  | [] => 0
  | l :: rest => (if first_is_lower l then 1 else 0) + count_lower rest
  end.

(** The first character of the line is lowercase and so is the first
    character of its title case form. *)
Definition stays_lower (l : str) : bool :=
  match l with
  | c :: _ =>
      match PyUnicode_ToTitleFull U c with
      | u :: _ => islower U u
      | [] => true
      end
  | [] => false
  end.
End LineSpec.

(** ** Runs and their outcome *)

(** The strings written during a run, in the order of the writes. *)
Definition written (w : world) : list str :=
  flat_map (fun e => match e with EvWrite s => [s] | _ => [] end) (trace w).

Definition after_failure (content : str) : world :=
  {| target := Some content; trace := [EvOpen ModeR; EvRead; EvClose] |}.

Definition after_success (output : list str) : world :=
  {| target := Some (concat output);
     trace := [EvOpen ModeR; EvRead; EvClose; EvOpen ModeW]
                ++ map EvWrite output ++ [EvClose] |}.

(** A second run on the file left by a first run that succeeded on
    [content] succeeds and leaves the file empty. *)
Definition second_run_empty (U : unicode_db) (content : str) : Prop :=
  forall w1 content1,
    run U content = (Ok tt, w1) ->
    target w1 = Some content1 ->
    exists w2, run U content1 = (Ok tt, w2) /\ target w2 = Some [].

(** The output of a run that succeeds on [content] is the conversion of the
    lines that pass the test, in their order, and has fewer lines than the
    input. *)
Definition strict_selection (U : unicode_db) (content : str) : Prop :=
  forall w,
    run U content = (Ok tt, w) ->
    written w = map (converted U) (filter (first_is_lower U) (readlines content))
    /\ length (written w) < length (readlines content).

(** ** Lines of a text file *)

Definition plain (s : str) : Prop := Forall (fun c => c <> LF /\ c <> CR) s.

(** A line that ends with its only line break. *)
Definition terminated (l : str) : Prop :=
  exists body, l = body ++ [LF] /\ plain body.

(** The shape of what [readlines] returns: terminated lines, the last of
    which may instead be a non-empty line without line break. *)
Inductive well_formed_lines : list str -> Prop :=
| wf_nil : well_formed_lines []
| wf_last body : body <> [] -> plain body -> well_formed_lines [body]
| wf_cons l ls :
    terminated l -> well_formed_lines ls -> well_formed_lines (l :: ls).

Definition nonspace (w : str) : Prop := Forall (fun c => isspace c = false) w.

(** ** Assumptions on the character tables *)

(** No lowercase character is a whitespace character. *)
Definition lower_is_not_space (U : unicode_db) : Prop :=
  forall c, islower U c = true -> isspace c = false.

(** The title and lower case forms of a character other than a line break
    contain no line break. *)
Definition case_maps_keep_lines (U : unicode_db) : Prop :=
  forall c, c <> LF -> c <> CR ->
    plain (PyUnicode_ToTitleFull U c) /\ plain (PyUnicode_ToLowerFull U c).

(** ** Sample texts *)

Definition fruit_lines : list str :=
  [py "apple banana" ++ [LF];
   py "Cherry date" ++ [LF];
   py "elderberry Fig grape" ++ [LF]].

Definition fruit_input : str := concat fruit_lines.

Definition fruit_output : str :=
  py "Apple Banana" ++ [LF] ++ py "Elderberry Fig grape" ++ [LF].

Definition solo_input : str := py "solo" ++ [LF].

(** A line that starts with U+00AA, the feminine ordinal indicator: a
    lowercase character without upper or title case form. *)
Definition ordinal_input : str := [170%N] ++ py "b c" ++ [LF].

(** ** Vocabulary of the further properties *)

(** Replay of a log of file operations from the handle state [h]: [None]
    when no handle is open, [Some m] when one is open in mode [m].  The log
    is accepted when opens and closes alternate, reads happen on a handle
    open for reading, writes on a handle open for writing, and no handle is
    left open. *)
Fixpoint well_bracketed_from (h : option mode) (tr : list event) : bool :=
  match tr, h with
  | [], None => true
  | EvOpen m :: r, None => well_bracketed_from (Some m) r
  | EvRead :: r, Some ModeR => well_bracketed_from h r
  | EvWrite _ :: r, Some ModeW => well_bracketed_from h r
  | EvClose :: r, Some _ => well_bracketed_from None r
  | _, _ => false
  end.

Definition well_bracketed (tr : list event) : bool :=
  well_bracketed_from None tr.

(** A line on which an iteration stops: the empty string, or a line that
    passes the lowercase test without a second token. *)
Definition blocking (U : unicode_db) (l : str) : bool :=
  match l with
  | [] => true
  | _ :: _ => negb (passes U l)
  end.

(** The exception an iteration raises on a blocking line. *)
Definition blocking_error (l : str) : exn :=
  match l with
  | [] => IndexError StringIndex
  | _ :: _ => IndexError ListIndex
  end.

(** A token: a non-empty string without whitespace. *)
Definition token (w : str) : Prop := w <> [] /\ nonspace w.

(** The title case form of a character other than whitespace is a token and
    its lower case form has no whitespace. *)
Definition case_maps_keep_tokens (U : unicode_db) : Prop :=
  forall c, isspace c = false ->
    token (PyUnicode_ToTitleFull U c) /\ nonspace (PyUnicode_ToLowerFull U c).

(** The sample text with the line ends of other platforms. *)
Definition fruit_input_crlf : str :=
  py "apple banana" ++ [CR; LF] ++ py "Cherry date" ++ [CR]
  ++ py "elderberry Fig grape" ++ [CR; LF].

(** ** The conversion of a line in the words of the specification *)








(** A line whose first token starts with the sharp s. *)
Definition sharp_s_input : str := [223%N] ++ py "a b" ++ [LF].

(** A line with capitals inside its tokens and runs of whitespace. *)
Definition mixed_case_line : str :=
  py "elderBERRY   fIG grape  Date " ++ [LF].


(** ** Proof automation *)

(** Case analysis on every comparison of code points in the goal. *)
Ltac split_comparisons :=
  repeat match goal with
    | |- context [N.leb ?a ?b] => destruct (N.leb_spec a b); try lia
    | |- context [N.eqb ?a ?b] => destruct (N.eqb_spec a b); try lia
    end.

(** * Properties *)

Example split_example :
  split (py "  apple   banana " ++ [LF]) = [py "apple"; py "banana"].
Proof. reflexivity. Qed.

Example readlines_example :
  readlines (py "a" ++ [CR; LF] ++ py "b" ++ [CR] ++ py "c") =
  [py "a" ++ [LF]; py "b" ++ [LF]; py "c"].
Proof. reflexivity. Qed.

Example capitalize_example :
  capitalize latin1_db (py "fIG") = py "Fig".
Proof. reflexivity. Qed.

(** The loop stops on a string index when a line is the empty string. *)
Example transform_empty_string :
  transform latin1_db [py "a b" ++ [LF]; []] = Raise (IndexError StringIndex).
Proof. reflexivity. Qed.

Example run_missing_file :
  main latin1_db {| target := None; trace := [] |} =
  (Raise FileNotFoundError, {| target := None; trace := [] |}).
Proof. reflexivity. Qed.

(** ** The loop, line by line *)

Section Lines.
Variable U : unicode_db.

Lemma loop_body_nth lines output i l :
  nth_error lines i = Some l ->
  loop_body U lines output i = step U l output.
Proof.
  intros Hi. unfold loop_body, list_getitem. rewrite Hi. cbn [rbind].
  destruct l as [|c l]; [reflexivity|].
  unfold str_getitem, step, enough_tokens, converted. cbn [nth_error rbind].
  destruct (islower U c); [|reflexivity].
  destruct (split (c :: l)) as [|w0 [|w1 rest]]; reflexivity.
Qed.

Lemma for_in_seq pre rest output :
  for_in (loop_body U (pre ++ rest)) output (seq (length pre) (length rest))
  = process U rest output.
Proof.
  revert pre output.
  induction rest as [|l rest IH]; intros pre output; [reflexivity|].
  cbn [length seq for_in process].
  rewrite (loop_body_nth _ _ _ l).
  - unfold rbind. destruct (step U l output) as [output'|e]; [|reflexivity].
    specialize (IH (pre ++ [l]) output').
    rewrite <- app_assoc in IH. cbn [app] in IH.
    rewrite length_app in IH. cbn [length] in IH.
    rewrite Nat.add_1_r in IH. exact IH.
  - rewrite nth_error_app2 by lia. rewrite Nat.sub_diag. reflexivity.
Qed.

Lemma transform_process lines : transform U lines = process U lines [].
Proof. exact (for_in_seq [] lines []). Qed.

Lemma step_nonempty l output :
  l <> [] ->
  step U l output =
  if first_is_lower U l
  then if enough_tokens l then Ok (output ++ [converted U l])
       else Raise (IndexError ListIndex)
  else Ok output.
Proof. destruct l; [congruence | reflexivity]. Qed.

(** On non-empty lines the loop either converts every line that passes the
    test or stops on a list index. *)
Lemma process_nonempty lines output :
  Forall (fun l => l <> []) lines ->
  process U lines output =
  if forallb (passes U) lines
  then Ok (output ++ map (converted U) (filter (first_is_lower U) lines))
  else Raise (IndexError ListIndex).
Proof.
  intros Hne. revert output.
  induction Hne as [|l lines Hl _ IH]; intros output;
    cbn [process forallb filter map].
  - now rewrite app_nil_r.
  - rewrite (step_nonempty l output Hl). unfold passes at 1.
    destruct (first_is_lower U l); cbn [negb orb andb map].
    + destruct (enough_tokens l); cbn [andb]; [|reflexivity].
      rewrite IH. destruct (forallb (passes U) lines); [|reflexivity].
      now rewrite <- app_assoc.
    + apply IH.
Qed.

Lemma process_app l1 l2 output :
  process U (l1 ++ l2) output =
  match process U l1 output with
  | Ok output' => process U l2 output'
  | Raise e => Raise e
  end.
Proof.
  revert output. induction l1 as [|l l1 IH]; intros output; cbn; [reflexivity|].
  destruct (step U l output); [apply IH | reflexivity].
Qed.

Lemma count_lower_filter lines :
  count_lower U lines = length (filter (first_is_lower U) lines).
Proof.
  induction lines as [|l lines IH]; cbn; [reflexivity|].
  destruct (first_is_lower U l); cbn; lia.
Qed.

Lemma count_lower_le lines : count_lower U lines <= length lines.
Proof.
  induction lines as [|l lines IH]; cbn; [lia|].
  destruct (first_is_lower U l); lia.
Qed.

Lemma count_lower_lt lines :
  count_lower U lines < length lines <->
  Exists (fun l => first_is_lower U l = false) lines.
Proof.
  induction lines as [|l lines IH]; cbn.
  - split; [lia | intros H; inversion H].
  - pose proof (count_lower_le lines) as Hle.
    destruct (first_is_lower U l) eqn:E.
    + split.
      * intros H. apply Exists_cons_tl, IH. lia.
      * intros H. inversion H; subst; [congruence|].
        apply IH in H1. lia.
    + split; [intros _; now apply Exists_cons_hd | lia].
Qed.
End Lines.

(** ** The run as a function of the loop *)

Lemma f_writelines_spec output old tr :
  f_writelines output {| target := Some old; trace := tr |} =
  (Ok tt, {| target := Some (old ++ concat output);
             trace := tr ++ map EvWrite output |}).
Proof.
  revert old tr. induction output as [|s output IH]; intros old tr.
  - cbn. now rewrite !app_nil_r.
  - cbn [f_writelines]. unfold bind, f_write. cbn [target trace].
    rewrite IH. cbn [concat map]. now rewrite <- !app_assoc.
Qed.

Lemma run_transform U content :
  run U content =
  match transform U (readlines content) with
  | Ok output => (Ok tt, after_success output)
  | Raise e => (Raise e, after_failure content)
  end.
Proof.
  unfold run, main, bind, with_open, open_r, open_w, f_readlines, lift, close,
    log. cbn [target trace app snd].
  destruct (transform U (readlines content)) as [output|e]; [|reflexivity].
  rewrite f_writelines_spec. reflexivity.
Qed.

Lemma written_after_success output : written (after_success output) = output.
Proof.
  unfold written, after_success. cbn [trace app flat_map].
  induction output as [|s output IH]; [reflexivity|].
  cbn [map app flat_map]. now rewrite IH.
Qed.

(** ** Lines of a text file *)

Lemma universal_newlines_no_CR s :
  Forall (fun c => c <> CR) (universal_newlines s).
Proof.
  assert (H : Forall (fun c => c <> CR) (universal_newlines s) /\
              forall c, Forall (fun c => c <> CR) (universal_newlines (c :: s))).
  { induction s as [|d s [IH1 IH2]].
    - split; [constructor|]. intros c. cbn.
      destruct (N.eqb_spec c CR); repeat constructor; [discriminate | assumption].
    - split; [apply IH2|]. intros c. cbn [universal_newlines].
      destruct (N.eqb_spec c CR).
      + destruct (N.eqb_spec d LF).
        * constructor; [discriminate | assumption].
        * constructor; [discriminate | apply IH2].
      + constructor; [assumption | apply IH2]. }
  apply H.
Qed.

Lemma universal_newlines_id s :
  Forall (fun c => c <> CR) s -> universal_newlines s = s.
Proof.
  induction 1 as [|c s Hc _ IH]; [reflexivity|].
  cbn [universal_newlines]. destruct (N.eqb_spec c CR); [contradiction|].
  now rewrite IH.
Qed.

Lemma splitlines_keepends_wf s :
  Forall (fun c => c <> CR) s -> well_formed_lines (splitlines_keepends s).
Proof.
  induction 1 as [|c s Hc _ IH]; [constructor|].
  cbn [splitlines_keepends]. destruct (N.eqb_spec c LF) as [->|Hlf].
  - apply wf_cons; [|assumption]. exists []. split; [reflexivity | constructor].
  - inversion IH as [|body Hb Hp|l ls [body [-> Hp]] Hls].
    + apply wf_last; [discriminate | repeat constructor; assumption].
    + apply wf_last; [discriminate | constructor; [split|]; assumption].
    + apply wf_cons; [|assumption]. exists (c :: body).
      split; [reflexivity | constructor; [split|]; assumption].
Qed.

Lemma readlines_wf s : well_formed_lines (readlines s).
Proof. apply splitlines_keepends_wf, universal_newlines_no_CR. Qed.

Lemma splitlines_keepends_terminated body rest :
  plain body ->
  splitlines_keepends ((body ++ [LF]) ++ rest) =
  (body ++ [LF]) :: splitlines_keepends rest.
Proof.
  induction 1 as [|c body [Hlf _] _ IH]; [reflexivity|].
  cbn [app splitlines_keepends]. destruct (N.eqb_spec c LF); [contradiction|].
  cbn [app] in IH. now rewrite IH.
Qed.

Lemma splitlines_keepends_plain body :
  body <> [] -> plain body -> splitlines_keepends body = [body].
Proof.
  intros Hne Hp. induction Hp as [|c body [Hlf _] Hp IH]; [congruence|].
  cbn [splitlines_keepends]. destruct (N.eqb_spec c LF); [contradiction|].
  destruct body as [|d body]; [reflexivity|].
  rewrite IH by discriminate. reflexivity.
Qed.

Lemma splitlines_keepends_concat ls :
  well_formed_lines ls -> splitlines_keepends (concat ls) = ls.
Proof.
  induction 1 as [|body Hne Hp|l ls [body [-> Hp]] _ IH].
  - reflexivity.
  - cbn. rewrite app_nil_r. now apply splitlines_keepends_plain.
  - cbn [concat]. rewrite splitlines_keepends_terminated by assumption.
    now rewrite IH.
Qed.

Lemma plain_no_CR s : plain s -> Forall (fun c => c <> CR) s.
Proof. apply Forall_impl. now intros c [_ H]. Qed.

Lemma wf_concat_no_CR ls :
  well_formed_lines ls -> Forall (fun c => c <> CR) (concat ls).
Proof.
  induction 1 as [|body Hne Hp|l ls [body [-> Hp]] _ IH]; cbn [concat].
  - constructor.
  - rewrite app_nil_r. now apply plain_no_CR.
  - rewrite !Forall_app. repeat split; [now apply plain_no_CR | | assumption].
    repeat constructor. discriminate.
Qed.

(** Reading back what was written as well-formed lines gives these lines. *)
Lemma readlines_concat ls :
  well_formed_lines ls -> readlines (concat ls) = ls.
Proof.
  intros Hwf. unfold readlines.
  rewrite universal_newlines_id by now apply wf_concat_no_CR.
  now apply splitlines_keepends_concat.
Qed.

Lemma terminated_nonempty l : terminated l -> l <> [].
Proof. intros [body [-> _]]. now destruct body. Qed.

Lemma wf_nonempty ls : well_formed_lines ls -> Forall (fun l => l <> []) ls.
Proof.
  induction 1 as [|body Hne Hp|l ls Hl _ IH]; repeat constructor; auto.
  now apply terminated_nonempty.
Qed.

Lemma wf_tail l ls : well_formed_lines (l :: ls) -> well_formed_lines ls.
Proof. inversion 1; [constructor | assumption]. Qed.

Lemma wf_terminated ls : Forall terminated ls -> well_formed_lines ls.
Proof. induction 1; constructor; assumption. Qed.

Lemma wf_remove pre l post :
  well_formed_lines (pre ++ l :: post) -> well_formed_lines (pre ++ post).
Proof.
  induction pre as [|p pre IH]; cbn [app]; intros Hwf.
  - now apply wf_tail in Hwf.
  - inversion Hwf as [|body Hne Hp Heq|? ? Hl Hls]; subst.
    + now destruct pre.
    + apply wf_cons; [assumption | now apply IH].
Qed.

Lemma readlines_nonempty s : Forall (fun l => l <> []) (readlines s).
Proof. apply wf_nonempty, readlines_wf. Qed.

(** ** Tokens *)

Lemma split_from_tokens cur s :
  nonspace cur ->
  Forall (fun w => w <> [] /\ nonspace w) (split_from cur s).
Proof.
  revert cur. induction s as [|c s IH]; intros cur Hcur; cbn [split_from].
  - destruct cur as [|d cur]; constructor; [|constructor].
    split; [|now apply Forall_rev].
    intros E. apply (f_equal (@length _)) in E.
    rewrite length_rev in E. discriminate.
  - destruct (isspace c) eqn:Ec.
    + destruct cur as [|d cur]; [apply IH; constructor|].
      constructor; [|apply IH; constructor].
      split; [|now apply Forall_rev].
      intros E. apply (f_equal (@length _)) in E.
      rewrite length_rev in E. discriminate.
    + apply IH. now constructor.
Qed.

Lemma split_tokens s : Forall (fun w => w <> [] /\ nonspace w) (split s).
Proof. apply split_from_tokens. constructor. Qed.

(** A token under construction ends up as the beginning of the first
    token. *)
Lemma split_from_head cur s :
  cur <> [] -> exists t ws, split_from cur s = (rev cur ++ t) :: ws.
Proof.
  revert cur. induction s as [|c s IH]; intros cur Hcur; cbn [split_from].
  - destruct cur; [congruence|]. exists [], []. now rewrite app_nil_r.
  - destruct (isspace c).
    + destruct cur; [congruence|]. exists [], (split_from [] s).
      now rewrite app_nil_r.
    + destruct (IH (c :: cur)) as [t [ws E]]; [discriminate|].
      exists (c :: t), ws. rewrite E. cbn [rev]. now rewrite <- app_assoc.
Qed.

(** A line that starts with a character other than whitespace has a first
    token, which starts with that character. *)
Lemma split_first c l :
  isspace c = false -> exists t ws, split (c :: l) = (c :: t) :: ws.
Proof.
  intros Hc. unfold split. cbn [split_from]. rewrite Hc.
  destruct (split_from_head [c] l) as [t [ws E]]; [discriminate|].
  now exists t, ws.
Qed.

Lemma nonspace_plain w : nonspace w -> plain w.
Proof.
  apply Forall_impl. intros c Hc. split; intros ->; discriminate.
Qed.

Lemma plain_join ws : Forall plain ws -> plain (join [SPACE] ws).
Proof.
  induction 1 as [|w ws Hw Hws IH]; [constructor|].
  cbn [join]. destruct ws as [|w' ws]; [assumption|].
  unfold plain. rewrite !Forall_app. repeat split; [assumption | | assumption].
  repeat constructor; discriminate.
Qed.

Lemma join_head sep u w ws : exists r, join sep ((u :: w) :: ws) = u :: r.
Proof. destruct ws; cbn [join app]; eauto. Qed.

Lemma split_from_nonspace w cur rest :
  nonspace w -> split_from cur (w ++ rest) = split_from (rev w ++ cur) rest.
Proof.
  intros Hw. revert cur. induction Hw as [|c w Hc _ IH]; intros cur.
  - reflexivity.
  - cbn [app split_from rev]. rewrite Hc, IH. now rewrite <- app_assoc.
Qed.

Lemma split_token_end w : token w -> split w = [w].
Proof.
  intros [Hne Hw]. unfold split.
  rewrite <- (app_nil_r w) at 1. rewrite split_from_nonspace by assumption.
  rewrite app_nil_r. cbn [split_from].
  destruct (rev w) eqn:E.
  - apply (f_equal (@rev _)) in E. rewrite rev_involutive in E. now subst.
  - now rewrite <- E, rev_involutive.
Qed.

Lemma split_token_sep w sp rest :
  token w -> isspace sp = true -> split (w ++ sp :: rest) = w :: split rest.
Proof.
  intros [Hne Hw] Hsp. unfold split.
  rewrite split_from_nonspace by assumption.
  rewrite app_nil_r. cbn [split_from]. rewrite Hsp.
  destruct (rev w) eqn:E.
  - apply (f_equal (@rev _)) in E. rewrite rev_involutive in E. now subst.
  - now rewrite <- E, rev_involutive.
Qed.

Lemma split_all_space s : split s = [] <-> Forall (fun c => isspace c = true) s.
Proof.
  unfold split. induction s as [|c s IH]; cbn [split_from].
  - split; [constructor | reflexivity].
  - destruct (isspace c) eqn:Ec.
    + rewrite IH. split; [now constructor | now inversion 1].
    + destruct (split_from_head [c] s) as [t [ws E]]; [discriminate|].
      rewrite E. split; [discriminate|]. inversion 1; congruence.
Qed.

(** ** Case mappings and line breaks *)

Section CaseMaps.
Variable U : unicode_db.
Hypothesis Hmaps : case_maps_keep_lines U.

Lemma plain_lower_from data i rest :
  plain rest -> plain (lower_from U data i rest).
Proof.
  intros Hp. revert i. induction Hp as [|c rest [Hlf Hcr] _ IH]; intros i.
  - constructor.
  - cbn [lower_from]. apply Forall_app. split; [|apply IH].
    unfold lower_ucs4. destruct (N.eqb c 931).
    + unfold handle_capital_sigma.
      match goal with |- context [if ?b then _ else _] => destruct b end;
        repeat constructor; discriminate.
    + now apply Hmaps.
Qed.

Lemma plain_capitalize w : plain w -> plain (capitalize U w).
Proof.
  intros Hp. destruct Hp as [|c w [Hlf Hcr] Hp]; [constructor|].
  cbn [capitalize]. apply Forall_app. split.
  - now apply Hmaps.
  - now apply plain_lower_from.
Qed.

Lemma plain_capitalize_first_two ws :
  Forall plain ws -> Forall plain (capitalize_first_two U ws).
Proof.
  intros H. destruct H as [|w0 ws H0 H]; [constructor|].
  destruct H as [|w1 ws H1 H]; cbn [capitalize_first_two];
    repeat constructor; auto using plain_capitalize.
Qed.

Lemma converted_terminated l : terminated (converted U l).
Proof.
  exists (join [SPACE] (capitalize_first_two U (split l))).
  split; [reflexivity|].
  apply plain_join, plain_capitalize_first_two.
  eapply Forall_impl; [|apply split_tokens].
  intros w [_ Hw]. now apply nonspace_plain.
Qed.

Lemma wf_converted ls : well_formed_lines (map (converted U) ls).
Proof.
  apply wf_terminated, Forall_map, Forall_forall.
  intros l _. apply converted_terminated.
Qed.
End CaseMaps.

(** ** The concrete table meets the assumptions *)

Lemma latin1_lower_is_not_space : lower_is_not_space latin1_db.
Proof.
  intros c. unfold islower. cbn [PyUnicode_IsLowercase latin1_db].
  unfold latin1_islower, isspace, in_range.
  split_comparisons; cbn; congruence.
Qed.

Lemma latin1_case_maps_keep_lines : case_maps_keep_lines latin1_db.
Proof.
  intros c Hlf Hcr. unfold LF, CR in *.
  cbn [PyUnicode_ToTitleFull PyUnicode_ToLowerFull latin1_db].
  unfold latin1_totitle, latin1_tolower, latin1_isupper, in_range, plain.
  split_comparisons; cbn; split; repeat constructor; unfold LF, CR; lia.
Qed.

(** On ASCII text [capitalize] puts the first character in upper case and
    the others in lower case. *)
Lemma latin1_lower_from_ascii data i rest :
  Forall (fun c => (c < 128)%N) rest ->
  lower_from latin1_db data i rest = map ascii_lower rest.
Proof.
  intros H. revert i. induction H as [|c rest Hc _ IH]; intros i.
  - reflexivity.
  - cbn [lower_from map]. rewrite IH. unfold lower_ucs4.
    destruct (N.eqb_spec c 931); [lia|].
    cbn [PyUnicode_ToLowerFull latin1_db].
    unfold latin1_tolower, latin1_isupper, ascii_lower, in_range.
    split_comparisons; reflexivity.
Qed.

Lemma latin1_capitalize_ascii c rest :
  Forall (fun c => (c < 128)%N) (c :: rest) ->
  capitalize latin1_db (c :: rest) = ascii_upper c :: map ascii_lower rest.
Proof.
  intros H. inversion H as [|? ? Hc Hrest]; subst.
  cbn [capitalize]. rewrite latin1_lower_from_ascii by assumption.
  cbn [PyUnicode_ToTitleFull latin1_db].
  unfold latin1_totitle, ascii_upper, in_range.
  split_comparisons; reflexivity.
Qed.

(** Among the lowercase characters of the table, the two ordinal indicators
    U+00AA and U+00BA are the ones whose title case form is lowercase. *)
Lemma latin1_stays_lower c r :
  first_is_lower latin1_db (c :: r) = true ->
  stays_lower latin1_db (c :: r) = true <-> c = 170%N \/ c = 186%N.
Proof.
  cbn [first_is_lower stays_lower]. unfold islower.
  cbn [PyUnicode_IsLowercase PyUnicode_ToTitleFull latin1_db].
  unfold latin1_totitle, latin1_islower, in_range.
  split_comparisons; cbn; intros _; split; try discriminate; try lia; auto.
  all: unfold latin1_islower, in_range; split_comparisons; cbn; congruence.
Qed.

(** ** The run on a file *)

Section Run.
Variable U : unicode_db.

Lemma passes_false l : passes U l = false <-> short_line U l.
Proof.
  unfold passes, short_line, enough_tokens.
  destruct (first_is_lower U l); cbn [negb orb].
  - rewrite Nat.leb_gt. intuition.
  - split; [discriminate | intros [H _]; discriminate].
Qed.

Lemma passes_true l :
  passes U l = true <->
  (first_is_lower U l = true -> 2 <= length (split l)).
Proof.
  unfold passes, enough_tokens.
  destruct (first_is_lower U l); cbn [negb orb].
  - rewrite Nat.leb_le. intuition.
  - intuition discriminate.
Qed.

Lemma forallb_passes_false ls :
  forallb (passes U) ls = false <-> Exists (short_line U) ls.
Proof.
  induction ls as [|l ls IH]; cbn [forallb].
  - split; [discriminate | intros H; inversion H].
  - rewrite andb_false_iff, Exists_cons, IH, passes_false. reflexivity.
Qed.

Lemma forallb_passes_true ls :
  forallb (passes U) ls = true <->
  Forall (fun l => first_is_lower U l = true -> 2 <= length (split l)) ls.
Proof.
  rewrite forallb_forall, Forall_forall.
  split; intros H l Hl; apply passes_true; auto.
Qed.

(** The loop on lines that were read from a file. *)
Lemma transform_nonempty lines :
  Forall (fun l => l <> []) lines ->
  transform U lines =
  if forallb (passes U) lines
  then Ok (map (converted U) (filter (first_is_lower U) lines))
  else Raise (IndexError ListIndex).
Proof.
  intros Hne. rewrite transform_process.
  now rewrite process_nonempty by assumption.
Qed.

Lemma run_spec content :
  run U content =
  if forallb (passes U) (readlines content)
  then (Ok tt, after_success
                 (map (converted U)
                    (filter (first_is_lower U) (readlines content))))
  else (Raise (IndexError ListIndex), after_failure content).
Proof.
  rewrite run_transform, transform_nonempty by apply readlines_nonempty.
  now destruct (forallb (passes U) (readlines content)).
Qed.

Lemma run_ok_inv content w :
  run U content = (Ok tt, w) ->
  forallb (passes U) (readlines content) = true /\
  w = after_success
        (map (converted U) (filter (first_is_lower U) (readlines content))).
Proof.
  rewrite run_spec.
  destruct (forallb (passes U) (readlines content)); [|discriminate].
  intros E. injection E as <-. now split.
Qed.

Lemma filter_app_cons pre (l : str) post :
  filter (first_is_lower U) (pre ++ l :: post) =
  filter (first_is_lower U) pre ++
  (if first_is_lower U l then [l] else []) ++
  filter (first_is_lower U) post.
Proof.
  rewrite filter_app. cbn [filter]. now destruct (first_is_lower U l).
Qed.
End Run.

Lemma filter_none {A} (f : A -> bool) (ls : list A) :
  Forall (fun a => f a = false) ls -> filter f ls = [].
Proof.
  induction 1 as [|a ls Ha _ IH]; [reflexivity|].
  cbn [filter]. now rewrite Ha.
Qed.

(** ** Tokens in the words of the specification *)










(** * The claims *)




(** The line written for the line with capitals inside its tokens, and the
    line written for the line that starts with the sharp s. *)
Example capitalized_lines :
  transform latin1_db [mixed_case_line] =
    Ok [py "Elderberry Fig grape Date" ++ [LF]] /\
  transform latin1_db [sharp_s_input] = Ok [py "Ssa B" ++ [LF]].
Proof. split; reflexivity. Qed.

(** C2.  A line of the input whose first character is not lowercase has no
    line in the output: the run on the file without that line has the same
    result and writes the same lines.  When no line of the input starts
    with a lowercase character the run succeeds, writes nothing and leaves
    the file empty. *)
Theorem nonlower_lines_dropped (U : unicode_db) (content : str) :
  (forall pre l post,
      readlines content = pre ++ l :: post ->
      first_is_lower U l = false ->
      fst (run U (concat (pre ++ post))) = fst (run U content) /\
      written (snd (run U (concat (pre ++ post)))) =
      written (snd (run U content)))
  /\
  (Forall (fun l => first_is_lower U l = false) (readlines content) ->
   exists w, run U content = (Ok tt, w) /\ written w = [] /\ target w = Some []).
Proof.
  split.
  - intros pre l post Hlines Hl.
    assert (Hwf : well_formed_lines (pre ++ post)).
    { apply (wf_remove pre l post). rewrite <- Hlines. apply readlines_wf. }
    rewrite !run_spec, (readlines_concat _ Hwf), Hlines.
    rewrite filter_app_cons, Hl, filter_app. cbn [app].
    assert (Hp : passes U l = true) by (unfold passes; now rewrite Hl).
    rewrite !forallb_app. cbn [forallb]. rewrite Hp. cbn [andb].
    destruct (forallb (passes U) pre && forallb (passes U) post);
      cbn [fst snd]; [|now split].
    split; [reflexivity|]. now rewrite !written_after_success.
  - intros Hall. rewrite run_spec.
    assert (Hp : forallb (passes U) (readlines content) = true).
    { apply forallb_forall. intros l Hl. unfold passes.
      rewrite Forall_forall in Hall. rewrite (Hall l Hl). reflexivity. }
    assert (Hf : filter (first_is_lower U) (readlines content) = []).
    { now apply filter_none. }
    rewrite Hp, Hf. eexists. split; [reflexivity|]. now split.
Qed.

(** C2 on the second line of the sample text, and on a file that holds
    that line only. *)
Lemma nonlower_lines_dropped_witness :
  let pre := [py "apple banana" ++ [LF]] in
  let l := py "Cherry date" ++ [LF] in
  let post := [py "elderberry Fig grape" ++ [LF]] in
  (fst (run latin1_db (concat (pre ++ post))) = fst (run latin1_db fruit_input)
   /\ written (snd (run latin1_db (concat (pre ++ post)))) =
      written (snd (run latin1_db fruit_input)))
  /\
  exists w, run latin1_db l = (Ok tt, w) /\ written w = [] /\
            target w = Some [].
Proof.
  intros pre l post. split.
  - exact (proj1 (nonlower_lines_dropped latin1_db fruit_input) pre l post
             eq_refl eq_refl).
  - apply (proj2 (nonlower_lines_dropped latin1_db l)).
    repeat constructor.
Defined.

(** C3.  The run on a file stops on an index error exactly when some line
    of the input passes the lowercase test and has fewer than two tokens;
    when every line that passes the test has at least two tokens the run
    succeeds.  The text ["solo\n"] makes the run stop that way. *)
Theorem index_error_iff_short_line :
  (forall (U : unicode_db) (content : str),
      (exists k w, run U content = (Raise (IndexError k), w)) <->
      Exists (short_line U) (readlines content))
  /\
  (forall (U : unicode_db) (content : str),
      Forall (fun l => first_is_lower U l = true -> 2 <= length (split l))
        (readlines content) ->
      exists w, run U content = (Ok tt, w))
  /\
  (exists w, run latin1_db solo_input = (Raise (IndexError ListIndex), w)).
Proof.
  split; [|split].
  - intros U content. rewrite run_spec, <- forallb_passes_false.
    destruct (forallb (passes U) (readlines content)).
    + split; [intros [k [w E]]; discriminate | discriminate].
    + split; [reflexivity | intros _; eauto].
  - intros U content Hall. rewrite run_spec.
    apply forallb_passes_true in Hall. rewrite Hall. eauto.
  - eexists. reflexivity.
Qed.

(** The line of the one-token text passes the test and has one token. *)
Lemma index_error_on_solo :
  Exists (short_line latin1_db) (readlines solo_input).
Proof. apply Exists_cons_hd. split; [reflexivity | vm_compute; constructor]. Qed.

(** C3 on the one-token text and on the sample text. *)
Lemma index_error_iff_short_line_witness :
  (Exists (short_line latin1_db) (readlines solo_input) /\
   exists k w, run latin1_db solo_input = (Raise (IndexError k), w))
  /\
  (Forall (fun l => first_is_lower latin1_db l = true -> 2 <= length (split l))
     (readlines fruit_input) /\
   exists w, run latin1_db fruit_input = (Ok tt, w)).
Proof.
  destruct index_error_iff_short_line as [Hiff [Hok _]].
  assert (H : Forall (fun l => first_is_lower latin1_db l = true ->
                               2 <= length (split l))
                (readlines fruit_input))
    by (repeat constructor; intros _; vm_compute; repeat constructor).
  split.
  - exact (conj index_error_on_solo
             (proj2 (Hiff latin1_db solo_input) index_error_on_solo)).
  - exact (conj H (Hok latin1_db fruit_input H)).
Defined.

(** The first character of a converted line is the first character of the
    title case form of the first character of the line. *)
Lemma first_is_lower_converted (U : unicode_db) (l : str) :
  lower_is_not_space U ->
  first_is_lower U l = true ->
  stays_lower U l = false ->
  first_is_lower U (converted U l) = false.
Proof.
  intros Hspace Hlow Hstay. destruct l as [|c r]; [discriminate|].
  cbn [first_is_lower stays_lower] in Hlow, Hstay.
  destruct (split_first c r (Hspace c Hlow)) as [t [ws E]].
  destruct (PyUnicode_ToTitleFull U c) as [|u r'] eqn:Et; [discriminate|].
  unfold converted. rewrite E.
  assert (Hcap : exists x, capitalize U (c :: t) = u :: x).
  { cbn [capitalize]. rewrite Et. cbn [app]. eauto. }
  destruct Hcap as [x Hx].
  assert (Hjoin : exists y,
             join [SPACE] (capitalize_first_two U ((c :: t) :: ws)) = u :: y).
  { destruct ws as [|w1 rest]; cbn [capitalize_first_two]; rewrite Hx;
      apply join_head. }
  destruct Hjoin as [y Hy]. rewrite Hy. exact Hstay.
Qed.

(** C4, as amended.  When the first character of every line that passes
    the lowercase test has a title case form that starts with a character
    that is not lowercase, as every letter from a to z has, a second run on
    the file left by a first run that succeeded succeeds as well and leaves
    the file empty.  The character tables are assumed to give no lowercase
    character that is whitespace and no case mapping that introduces a line
    break. *)
Theorem second_run_writes_nothing (U : unicode_db) (content : str) :
  lower_is_not_space U ->
  case_maps_keep_lines U ->
  Forall (fun l => first_is_lower U l = true -> stays_lower U l = false)
    (readlines content) ->
  second_run_empty U content.
Proof.
  intros Hspace Hmaps Hall w1 content1 Hrun Htarget.
  apply run_ok_inv in Hrun as [_ ->].
  cbn [after_success target] in Htarget. injection Htarget as <-.
  set (kept := filter (first_is_lower U) (readlines content)).
  assert (Hkept : Forall (fun l => first_is_lower U (converted U l) = false)
                    kept).
  { apply Forall_forall. intros l Hl. apply filter_In in Hl as [Hin Hlow].
    rewrite Forall_forall in Hall.
    apply first_is_lower_converted; auto. }
  assert (Hout : Forall (fun l => first_is_lower U l = false)
                   (map (converted U) kept)).
  { apply Forall_map. exact Hkept. }
  rewrite run_spec, readlines_concat by now apply wf_converted.
  rewrite (filter_none _ _ Hout).
  assert (Hp : forallb (passes U) (map (converted U) kept) = true).
  { apply forallb_forall. intros l Hl. unfold passes.
    rewrite Forall_forall in Hout. rewrite (Hout l Hl). reflexivity. }
  rewrite Hp. eexists. split; reflexivity.
Qed.

(** C4, as amended, on the sample text with the concrete table. *)
Lemma second_run_writes_nothing_witness :
  (lower_is_not_space latin1_db /\
   case_maps_keep_lines latin1_db /\
   Forall (fun l => first_is_lower latin1_db l = true ->
                    stays_lower latin1_db l = false)
     (readlines fruit_input)) /\
  second_run_empty latin1_db fruit_input.
Proof.
  assert (H : Forall (fun l => first_is_lower latin1_db l = true ->
                               stays_lower latin1_db l = false)
                (readlines fruit_input))
    by (repeat constructor).
  split.
  - exact (conj latin1_lower_is_not_space
             (conj latin1_case_maps_keep_lines H)).
  - exact (second_run_writes_nothing latin1_db fruit_input
             latin1_lower_is_not_space latin1_case_maps_keep_lines H).
Defined.

(** The claim C4 as it is stated fails on a line that starts with U+00AA:
    the character is lowercase and is its own title case form, so the line
    written by the first run passes the test of the second run again. *)
Lemma second_run_not_empty_counterexample :
  ~ second_run_empty latin1_db ordinal_input.
Proof.
  intros H.
  destruct (H (snd (run latin1_db ordinal_input))
              ([170%N] ++ py "b C" ++ [LF]) eq_refl eq_refl)
    as [w2 [Hrun Htarget]].
  vm_compute in Hrun. injection Hrun as <-. discriminate.
Qed.

(** The two runs on the text that starts with U+00AA: each leaves the line
    with the second token capitalized. *)
Example ordinal_runs :
  let once := [170%N] ++ py "b C" ++ [LF] in
  (exists w1, run latin1_db ordinal_input = (Ok tt, w1) /\
              target w1 = Some once) /\
  (exists w2, run latin1_db once = (Ok tt, w2) /\ target w2 = Some once).
Proof. split; eexists; split; reflexivity. Qed.

(** C5, as amended.  In a run that succeeds, the lines written are the
    conversions of the input lines that pass the lowercase test, one for
    each and in the order of the input; there are at most as many of them as
    input lines, and fewer exactly when some input line does not pass the
    test. *)
Theorem output_is_ordered_selection
    (U : unicode_db) (content : str) (w : world) :
  run U content = (Ok tt, w) ->
  written w = map (converted U) (filter (first_is_lower U) (readlines content))
  /\ length (written w) <= length (readlines content)
  /\ (length (written w) < length (readlines content) <->
      Exists (fun l => first_is_lower U l = false) (readlines content)).
Proof.
  intros Hrun. apply run_ok_inv in Hrun as [_ ->].
  rewrite written_after_success, length_map, <- count_lower_filter.
  split; [reflexivity|]. split.
  - apply count_lower_le.
  - apply count_lower_lt.
Qed.

(** C5, as amended, on the sample text. *)
Lemma output_is_ordered_selection_witness :
  let w := snd (run latin1_db fruit_input) in
  run latin1_db fruit_input = (Ok tt, w) /\
  (written w =
   map (converted latin1_db)
     (filter (first_is_lower latin1_db) (readlines fruit_input))
   /\ length (written w) <= length (readlines fruit_input)
   /\ (length (written w) < length (readlines fruit_input) <->
       Exists (fun l => first_is_lower latin1_db l = false)
         (readlines fruit_input))).
Proof.
  intros w.
  assert (H : run latin1_db fruit_input = (Ok tt, w)) by reflexivity.
  exact (conj H (output_is_ordered_selection latin1_db fruit_input w H)).
Defined.

(** The claim C5 as it is stated fails on a file in which every line passes
    the test: the run on the text ["a b\n"] reads one line and writes
    one. *)
Lemma strict_selection_counterexample :
  ~ strict_selection latin1_db (py "a b" ++ [LF]).
Proof.
  intros H.
  destruct (H (snd (run latin1_db (py "a b" ++ [LF]))) eq_refl) as [_ Hlt].
  vm_compute in Hlt. lia.
Qed.

(** C6.  In a run that succeeds, the number of lines written is the number
    of input lines whose first character is lowercase. *)
Theorem output_count (U : unicode_db) (content : str) (w : world) :
  run U content = (Ok tt, w) ->
  length (written w) = count_lower U (readlines content).
Proof.
  intros Hrun. apply run_ok_inv in Hrun as [_ ->].
  now rewrite written_after_success, length_map, count_lower_filter.
Qed.

(** C6 on the sample text. *)
Lemma output_count_witness :
  let w := snd (run latin1_db fruit_input) in
  run latin1_db fruit_input = (Ok tt, w) /\
  length (written w) = count_lower latin1_db (readlines fruit_input).
Proof.
  intros w.
  assert (H : run latin1_db fruit_input = (Ok tt, w)) by reflexivity.
  exact (conj H (output_count latin1_db fruit_input w H)).
Defined.

(** C7.  On the text ["apple banana\nCherry date\nelderberry Fig grape\n"]
    the run succeeds, writes the two lines ["Apple Banana\n"] and
    ["Elderberry Fig grape\n"], and leaves them as the text of the file. *)
Theorem fruit_scenario :
  exists w,
    run latin1_db fruit_input = (Ok tt, w) /\
    written w = [py "Apple Banana" ++ [LF];
                 py "Elderberry Fig grape" ++ [LF]] /\
    target w = Some fruit_output.
Proof. eexists. split; [reflexivity|]. split; reflexivity. Qed.

(** C8.  When some line of the input passes the lowercase test and has
    fewer than two tokens, the run stops on the index error with the file as
    it was: the file was opened for reading, read and closed, and was neither
    opened for writing nor written. *)
Theorem index_error_leaves_file (U : unicode_db) (content : str) :
  Exists (short_line U) (readlines content) ->
  exists w,
    run U content = (Raise (IndexError ListIndex), w) /\
    target w = Some content /\
    trace w = [EvOpen ModeR; EvRead; EvClose] /\
    ~ In (EvOpen ModeW) (trace w) /\
    written w = [].
Proof.
  intros Hshort. apply forallb_passes_false in Hshort.
  rewrite run_spec, Hshort. eexists. split; [reflexivity|].
  repeat split. cbn. intros [H|[H|[H|[]]]]; discriminate.
Qed.

(** C8 on the one-token text. *)
Lemma index_error_leaves_file_witness :
  Exists (short_line latin1_db) (readlines solo_input) /\
  exists w,
    run latin1_db solo_input = (Raise (IndexError ListIndex), w) /\
    target w = Some solo_input /\
    trace w = [EvOpen ModeR; EvRead; EvClose] /\
    ~ In (EvOpen ModeW) (trace w) /\
    written w = [].
Proof.
  exact (conj index_error_on_solo
           (index_error_leaves_file latin1_db solo_input index_error_on_solo)).
Defined.

(** C9.  Every line that [readlines] returns is a non-empty string, so its
    character at index 0 exists; an empty file has no lines; and no run on
    a file stops on a string index. *)
Theorem first_character_exists (content : str) :
  Forall (fun l => l <> [] /\ exists c, str_getitem l 0 = Ok c)
    (readlines content)
  /\ readlines [] = []
  /\ (forall (U : unicode_db) (w : world),
         run U content <> (Raise (IndexError StringIndex), w)).
Proof.
  split; [|split].
  - eapply Forall_impl; [|apply readlines_nonempty].
    intros [|c l] Hl; [congruence|]. split; [assumption|]. now exists c.
  - reflexivity.
  - intros U w. rewrite run_spec.
    destruct (forallb (passes U) (readlines content)); discriminate.
Qed.

(** C10.  A line whose first character is lowercase has a first token, so
    reading token 0 and assigning its capitalized form go through; when the
    iteration on such a line stops, it stops on a list index and the line
    has exactly one token.  The character tables are assumed to give no
    lowercase character that is whitespace. *)
Theorem first_token_exists (U : unicode_db) (l : str) :
  lower_is_not_space U ->
  first_is_lower U l = true ->
  exists w0 ws,
    split l = w0 :: ws /\
    list_getitem (split l) 0 = Ok w0 /\
    list_setitem (split l) 0 (capitalize U w0) = Ok (capitalize U w0 :: ws) /\
    (forall lines output i e,
        nth_error lines i = Some l ->
        loop_body U lines output i = Raise e ->
        e = IndexError ListIndex /\ ws = [] /\
        list_getitem (capitalize U w0 :: ws) 1 = Raise e).
Proof.
  intros Hspace Hlow. destruct l as [|c r]; [discriminate|].
  cbn [first_is_lower] in Hlow.
  destruct (split_first c r (Hspace c Hlow)) as [t [ws E]].
  exists (c :: t), ws. rewrite E.
  split; [reflexivity|]. split; [reflexivity|]. split; [reflexivity|].
  intros lines output i e Hnth Hraise.
  rewrite (loop_body_nth U lines output i (c :: r) Hnth) in Hraise.
  cbn [step] in Hraise. rewrite Hlow in Hraise.
  unfold enough_tokens in Hraise. rewrite E in Hraise.
  destruct ws as [|w1 rest]; [|discriminate].
  injection Hraise as <-. repeat split.
Qed.

(** C10 on the one-token line. *)
Lemma first_token_exists_witness :
  let l := py "solo" ++ [LF] in
  (lower_is_not_space latin1_db /\ first_is_lower latin1_db l = true) /\
  exists w0 ws,
    split l = w0 :: ws /\
    list_getitem (split l) 0 = Ok w0 /\
    list_setitem (split l) 0 (capitalize latin1_db w0)
    = Ok (capitalize latin1_db w0 :: ws) /\
    (forall lines output i e,
        nth_error lines i = Some l ->
        loop_body latin1_db lines output i = Raise e ->
        e = IndexError ListIndex /\ ws = [] /\
        list_getitem (capitalize latin1_db w0 :: ws) 1 = Raise e).
Proof.
  intros l.
  exact (conj (conj latin1_lower_is_not_space eq_refl)
           (first_token_exists latin1_db l latin1_lower_is_not_space eq_refl)).
Defined.

(** * Further properties of the script *)

(** ** Files *)

(** X1.  When no file exists at the path, the script stops on
    [FileNotFoundError] at the first [open]: the file is not created and no
    operation on it takes place, whatever happened before. *)
Theorem missing_file_not_created (U : unicode_db) (tr : list event) :
  main U {| target := None; trace := tr |} =
  (Raise FileNotFoundError, {| target := None; trace := tr |}).
Proof. reflexivity. Qed.

(** X2.  When the loop returns a list of strings, the script goes through:
    the second [with] block raises nothing, every string of the list is
    written, in the order of the list, and the text of the file is then
    these strings one after the other with nothing between them; nothing of
    the previous text is left but what the strings carry. *)
Theorem file_is_concat_of_output
    (U : unicode_db) (content : str) (output : list str) :
  transform U (readlines content) = Ok output ->
  exists w,
    run U content = (Ok tt, w) /\
    target w = Some (concat output) /\
    written w = output.
Proof.
  intros Htransform. rewrite run_transform, Htransform.
  eexists. split; [reflexivity|]. split; [reflexivity|].
  apply written_after_success.
Qed.

(** X2 on the sample text: the loop returns the two converted lines and
    the file holds them, one after the other. *)
Lemma file_is_concat_of_output_witness :
  let output := [py "Apple Banana" ++ [LF];
                 py "Elderberry Fig grape" ++ [LF]] in
  transform latin1_db (readlines fruit_input) = Ok output /\
  exists w,
    run latin1_db fruit_input = (Ok tt, w) /\
    target w = Some (py "Apple Banana" ++ [LF]
                     ++ py "Elderberry Fig grape" ++ [LF]) /\
    written w = output.
Proof.
  intros output.
  assert (H : transform latin1_db (readlines fruit_input) = Ok output)
    by reflexivity.
  exact (conj H (file_is_concat_of_output latin1_db fruit_input output H)).
Defined.

Lemma well_bracketed_writes output tr :
  well_bracketed_from (Some ModeW) (map EvWrite output ++ tr) =
  well_bracketed_from (Some ModeW) tr.
Proof. induction output as [|s output IH]; [reflexivity | exact IH]. Qed.

(** X3.  In every run, on a missing file or on an existing one, successful
    or not, the file operations are well bracketed: the file is closed after
    reading, also when the loop raises, before it is opened for writing;
    reads happen on the handle open for reading and writes on the one open
    for writing; no handle is left open. *)
Theorem operations_well_bracketed (U : unicode_db) (file : option str) :
  well_bracketed (trace (snd (main U {| target := file; trace := [] |})))
  = true.
Proof.
  destruct file as [content|]; [|reflexivity].
  change (main U {| target := Some content; trace := [] |})
    with (run U content).
  rewrite run_spec.
  destruct (forallb (passes U) (readlines content)); [|reflexivity].
  unfold after_success. cbn [snd trace well_bracketed app].
  unfold well_bracketed. cbn [well_bracketed_from app].
  now rewrite well_bracketed_writes.
Qed.

(** ** Reading lines *)

Lemma concat_splitlines_keepends s : concat (splitlines_keepends s) = s.
Proof.
  induction s as [|c s IH]; [reflexivity|].
  cbn [splitlines_keepends]. destruct (N.eqb c LF).
  - cbn [concat app]. now rewrite IH.
  - destruct (splitlines_keepends s) as [|l ls].
    + cbn in IH. now subst.
    + cbn [concat app] in *. now rewrite IH.
Qed.

(** X4.  [readlines] loses and adds no character: the lines, one after the
    other, are the text of the file after the translation of the line ends,
    and the text itself when it has no carriage return. *)
Theorem readlines_partition (s : str) :
  concat (readlines s) = universal_newlines s /\
  (Forall (fun c => c <> CR) s -> concat (readlines s) = s).
Proof.
  unfold readlines. rewrite concat_splitlines_keepends.
  split; [reflexivity | apply universal_newlines_id].
Qed.

(** X5.  What [readlines] returns has the shape of the lines of a text:
    every line ends with its only line break, except that the last one may
    be a non-empty line without line break, and no line has a carriage
    return.  On lists of that shape [readlines] undoes the concatenation. *)
Theorem readlines_inverts_concat :
  (forall s, well_formed_lines (readlines s)) /\
  (forall ls, well_formed_lines ls -> readlines (concat ls) = ls).
Proof. split; [exact readlines_wf | exact readlines_concat]. Qed.

Lemma readlines_inverts_concat_witness :
  well_formed_lines fruit_lines /\ readlines (concat fruit_lines) = fruit_lines.
Proof.
  assert (H : well_formed_lines fruit_lines).
  { apply wf_terminated. unfold fruit_lines.
    apply Forall_cons; [|apply Forall_cons; [|apply Forall_cons;
                                               [|apply Forall_nil]]].
    - exists (py "apple banana"). split; [reflexivity|].
      repeat constructor; discriminate.
    - exists (py "Cherry date"). split; [reflexivity|].
      repeat constructor; discriminate.
    - exists (py "elderberry Fig grape"). split; [reflexivity|].
      repeat constructor; discriminate. }
  exact (conj H (proj2 readlines_inverts_concat fruit_lines H)).
Defined.

Lemma universal_newlines_idempotent s :
  universal_newlines (universal_newlines s) = universal_newlines s.
Proof. apply universal_newlines_id, universal_newlines_no_CR. Qed.

(** X6.  The script does not depend on the convention of line ends of its
    input: a text with CR LF or CR line ends has the lines of the same text
    with LF line ends, no line that is read holds a carriage return, and the
    run on either text has the same result and writes the same lines. *)
Theorem line_end_convention_irrelevant (U : unicode_db) (s : str) :
  readlines (universal_newlines s) = readlines s /\
  Forall (Forall (fun c => c <> CR)) (readlines s) /\
  fst (run U (universal_newlines s)) = fst (run U s) /\
  written (snd (run U (universal_newlines s))) = written (snd (run U s)).
Proof.
  assert (E : readlines (universal_newlines s) = readlines s).
  { unfold readlines. now rewrite universal_newlines_idempotent. }
  split; [exact E|]. split.
  - apply Forall_concat. unfold readlines.
    rewrite concat_splitlines_keepends. apply universal_newlines_no_CR.
  - rewrite !run_spec, E.
    destruct (forallb (passes U) (readlines s)); split; reflexivity.
Qed.

(** ** Tokens *)

(** X7.  [split] returns tokens only: none is empty, none holds a
    whitespace character; and it returns no token exactly when the string
    is made of whitespace, the empty string included. *)
Theorem split_gives_tokens (s : str) :
  Forall token (split s) /\
  (split s = [] <-> Forall (fun c => isspace c = true) s).
Proof. split; [apply split_tokens | apply split_all_space]. Qed.

Lemma split_join ws :
  Forall token ws -> split (join [SPACE] ws ++ [LF]) = ws.
Proof.
  induction 1 as [|w ws Hw Hws IH]; [reflexivity|].
  cbn [join]. destruct ws as [|w' ws].
  - rewrite split_token_sep by (assumption || reflexivity). reflexivity.
  - rewrite <- !app_assoc. cbn [app].
    rewrite split_token_sep by (assumption || reflexivity).
    now rewrite IH.
Qed.

(** X8.  Joining tokens with single spaces and splitting the result gives
    the tokens back, with or without a newline at the end. *)
Theorem split_inverts_join (ws : list str) :
  Forall token ws ->
  split (join [SPACE] ws) = ws /\ split (join [SPACE] ws ++ [LF]) = ws.
Proof.
  intros Hws. split; [|now apply split_join].
  induction Hws as [|w ws Hw Hws IH]; [reflexivity|].
  cbn [join]. destruct ws as [|w' ws].
  - now apply split_token_end.
  - cbn [app]. rewrite split_token_sep by (assumption || reflexivity).
    now rewrite IH.
Qed.

Lemma split_inverts_join_witness :
  let ws := [py "Apple"; py "Banana"] in
  Forall token ws /\
  split (join [SPACE] ws) = ws /\ split (join [SPACE] ws ++ [LF]) = ws.
Proof.
  intros ws.
  assert (H : Forall token ws).
  { repeat constructor; discriminate. }
  exact (conj H (split_inverts_join ws H)).
Defined.

Section CaseTokens.
Variable U : unicode_db.
Hypothesis Htok : case_maps_keep_tokens U.

Lemma nonspace_lower_from data i rest :
  nonspace rest -> nonspace (lower_from U data i rest).
Proof.
  intros Hp. revert i. induction Hp as [|c rest Hc _ IH]; intros i.
  - constructor.
  - cbn [lower_from]. apply Forall_app. split; [|apply IH].
    unfold lower_ucs4. destruct (N.eqb c 931).
    + unfold handle_capital_sigma.
      match goal with |- context [if ?b then _ else _] => destruct b end;
        repeat constructor.
    + now apply Htok.
Qed.

Lemma token_capitalize w : token w -> token (capitalize U w).
Proof.
  intros [Hne Hw]. destruct Hw as [|c w Hc Hw]; [congruence|].
  cbn [capitalize]. destruct (Htok c Hc) as [[Hne' Ht] _]. split.
  - destruct (PyUnicode_ToTitleFull U c); [congruence | discriminate].
  - apply Forall_app. split; [assumption|].
    now apply nonspace_lower_from.
Qed.

Lemma token_capitalize_first_two ws :
  Forall token ws -> Forall token (capitalize_first_two U ws).
Proof.
  intros H. destruct H as [|w0 ws H0 H]; [constructor|].
  destruct H as [|w1 ws H1 H]; cbn [capitalize_first_two].
  - apply Forall_cons; [now apply token_capitalize | apply Forall_nil].
  - apply Forall_cons; [now apply token_capitalize|].
    apply Forall_cons; [now apply token_capitalize | assumption].
Qed.

Lemma length_capitalize_first_two ws :
  length (capitalize_first_two U ws) = length ws.
Proof. destruct ws as [|w0 [|w1 rest]]; reflexivity. Qed.
End CaseTokens.

Lemma latin1_case_maps_keep_tokens : case_maps_keep_tokens latin1_db.
Proof.
  intros c. unfold token, nonspace.
  cbn [PyUnicode_ToTitleFull PyUnicode_ToLowerFull latin1_db].
  unfold latin1_totitle, latin1_tolower, latin1_isupper, in_range, isspace.
  split_comparisons; cbn; intros Hc; try discriminate;
    repeat split; try discriminate; repeat constructor;
    split_comparisons; reflexivity.
Qed.

(** X9.  The output line of a line has the tokens of that line, the first
    two capitalized: the script changes the whitespace between, before and
    after the tokens and the case of the first two tokens, and neither the
    number of tokens nor any other token.  The character tables are assumed
    to map characters other than whitespace to tokens. *)
Theorem output_line_tokens (U : unicode_db) (l : str) :
  case_maps_keep_tokens U ->
  split (converted U l) = capitalize_first_two U (split l) /\
  length (split (converted U l)) = length (split l) /\
  skipn 2 (split (converted U l)) = skipn 2 (split l).
Proof.
  intros Htok.
  assert (E : split (converted U l) = capitalize_first_two U (split l)).
  { unfold converted. apply split_join, token_capitalize_first_two;
      [assumption | apply split_tokens]. }
  rewrite E. split; [reflexivity|]. split.
  - apply length_capitalize_first_two.
  - destruct (split l) as [|w0 [|w1 rest]]; reflexivity.
Qed.

Lemma output_line_tokens_witness :
  let l := py "  elderberry   Fig grape " ++ [CR; LF] in
  case_maps_keep_tokens latin1_db /\
  (split (converted latin1_db l) = capitalize_first_two latin1_db (split l) /\
   length (split (converted latin1_db l)) = length (split l) /\
   skipn 2 (split (converted latin1_db l)) = skipn 2 (split l)).
Proof.
  intros l.
  exact (conj latin1_case_maps_keep_tokens
           (output_line_tokens latin1_db l latin1_case_maps_keep_tokens)).
Defined.

Lemma join_prefix sep a b ws : exists r, join sep ((a ++ b) :: ws) = a ++ r.
Proof.
  destruct ws; cbn [join]; [now exists b|].
  rewrite <- app_assoc. eauto.
Qed.

(** X10.  The output line of a line that passes the lowercase test starts
    with the title case form of the first character of the line.  The
    character tables are assumed to give no lowercase character that is
    whitespace. *)
Theorem output_line_start (U : unicode_db) (c : codepoint) (l : str) :
  lower_is_not_space U ->
  islower U c = true ->
  exists r, converted U (c :: l) = PyUnicode_ToTitleFull U c ++ r.
Proof.
  intros Hspace Hlow.
  destruct (split_first c l (Hspace c Hlow)) as [t [ws E]].
  unfold converted. rewrite E.
  assert (H : exists r,
             join [SPACE] (capitalize_first_two U ((c :: t) :: ws)) =
             PyUnicode_ToTitleFull U c ++ r).
  { destruct ws as [|w1 rest]; cbn [capitalize_first_two capitalize];
      apply join_prefix. }
  destruct H as [r Hr]. rewrite Hr, <- app_assoc. eauto.
Qed.

Lemma output_line_start_witness :
  lower_is_not_space latin1_db /\
  islower latin1_db 97%N = true /\
  exists r, converted latin1_db (97%N :: py "pple banana" ++ [LF]) =
            PyUnicode_ToTitleFull latin1_db 97%N ++ r.
Proof.
  exact (conj latin1_lower_is_not_space
           (conj eq_refl
              (output_line_start latin1_db 97%N (py "pple banana" ++ [LF])
                 latin1_lower_is_not_space eq_refl))).
Defined.

(** X11.  The lines written by a run that succeeds can be read back: every
    one ends with its only line break, and [readlines] on the text left in
    the file returns them as they were written.  The character tables are
    assumed to give no case mapping that introduces a line break. *)
Theorem written_lines_read_back
    (U : unicode_db) (content : str) (w : world) :
  case_maps_keep_lines U ->
  run U content = (Ok tt, w) ->
  Forall terminated (written w) /\
  exists text, target w = Some text /\ readlines text = written w.
Proof.
  intros Hmaps Hrun. apply run_ok_inv in Hrun as [_ ->].
  rewrite written_after_success. split.
  - apply Forall_map, Forall_forall. intros l _.
    now apply converted_terminated.
  - eexists. split; [reflexivity|].
    apply readlines_concat. now apply wf_converted.
Qed.

Lemma written_lines_read_back_witness :
  let w := snd (run latin1_db fruit_input) in
  (case_maps_keep_lines latin1_db /\ run latin1_db fruit_input = (Ok tt, w)) /\
  (Forall terminated (written w) /\
   exists text, target w = Some text /\ readlines text = written w).
Proof.
  intros w.
  assert (H : run latin1_db fruit_input = (Ok tt, w)) by reflexivity.
  exact (conj (conj latin1_case_maps_keep_lines H)
           (written_lines_read_back latin1_db fruit_input w
              latin1_case_maps_keep_lines H)).
Defined.

(** The sample text with CR LF and CR line ends is read as the lines of the
    sample text, and the run on it writes the same file. *)
Example crlf_sample :
  readlines fruit_input_crlf = fruit_lines /\
  fst (run latin1_db fruit_input_crlf) = Ok tt /\
  target (snd (run latin1_db fruit_input_crlf)) = Some fruit_output.
Proof. repeat split; reflexivity. Qed.

(** ** The loop on any list of lines *)

Section Loop.
Variable U : unicode_db.

Lemma blocking_false l :
  blocking U l = false <-> l <> [] /\ passes U l = true.
Proof.
  destruct l as [|c l]; cbn [blocking].
  - split; [discriminate | intros [H _]; congruence].
  - rewrite negb_false_iff. split; [intros H; split; [discriminate | exact H]|].
    now intros [_ H].
Qed.

Lemma step_blocking l output :
  blocking U l = true -> step U l output = Raise (blocking_error l).
Proof.
  destruct l as [|c l]; [reflexivity|]. cbn [blocking blocking_error].
  rewrite negb_true_iff. intros Hp.
  rewrite step_nonempty by discriminate.
  unfold passes in Hp. apply orb_false_iff in Hp as [Hl He].
  apply negb_false_iff in Hl. now rewrite Hl, He.
Qed.

Lemma process_good lines output :
  Forall (fun l => blocking U l = false) lines ->
  process U lines output =
  Ok (output ++ map (converted U) (filter (first_is_lower U) lines)).
Proof.
  intros Hgood. rewrite process_nonempty.
  - assert (Hp : forallb (passes U) lines = true).
    { apply forallb_forall. intros l Hl. rewrite Forall_forall in Hgood.
      now apply blocking_false, Hgood. }
    now rewrite Hp.
  - eapply Forall_impl; [|exact Hgood]. intros l Hl.
    now apply blocking_false in Hl.
Qed.

Lemma process_ok_good lines output output' :
  process U lines output = Ok output' ->
  Forall (fun l => blocking U l = false) lines.
Proof.
  revert output. induction lines as [|l lines IH]; intros output Hp.
  - constructor.
  - cbn [process] in Hp. destruct (blocking U l) eqn:Eb.
    + now rewrite (step_blocking l output Eb) in Hp.
    + destruct (step U l output) as [o|e]; [|discriminate].
      constructor; [exact Eb | now apply (IH o)].
Qed.

Lemma step_acc l output :
  step U l output =
  match step U l [] with
  | Ok o => Ok (output ++ o)
  | Raise e => Raise e
  end.
Proof.
  destruct l as [|c l]; [reflexivity|]. cbn [step].
  destruct (islower U c); [|now rewrite app_nil_r].
  now destruct (enough_tokens (c :: l)).
Qed.

Lemma process_acc lines output :
  process U lines output =
  match process U lines [] with
  | Ok o => Ok (output ++ o)
  | Raise e => Raise e
  end.
Proof.
  revert output. induction lines as [|l lines IH]; intros output.
  - cbn. now rewrite app_nil_r.
  - cbn [process]. rewrite (step_acc l output).
    destruct (step U l []) as [o1|e]; [|reflexivity].
    rewrite (IH (output ++ o1)), (IH o1).
    destruct (process U lines []); [now rewrite app_assoc | reflexivity].
Qed.

End Loop.

(** X12.  The loop stops at the first line on which an iteration cannot go
    through, an empty string or a line that passes the lowercase test
    without a second token: it raises the string index error on the former
    and the list index error on the latter, whatever the lines after it
    are, and returns no output. *)
Theorem loop_stops_at_first_blocking_line
    (U : unicode_db) (pre : list str) (l : str) (post : list str) :
  Forall (fun x => blocking U x = false) pre ->
  blocking U l = true ->
  transform U (pre ++ l :: post) = Raise (blocking_error l).
Proof.
  intros Hpre Hl. rewrite transform_process, process_app.
  rewrite (process_good U pre [] Hpre). cbn [process].
  now rewrite step_blocking.
Qed.

Lemma loop_stops_at_first_blocking_line_witness :
  let pre := [py "apple banana" ++ [LF]; py "Cherry" ++ [LF]] in
  let post := [py "solo" ++ [LF]] in
  (Forall (fun x => blocking latin1_db x = false) pre /\
   blocking latin1_db [] = true) /\
  transform latin1_db (pre ++ [] :: post) = Raise (IndexError StringIndex).
Proof.
  intros pre post.
  assert (H : Forall (fun x => blocking latin1_db x = false) pre)
    by (repeat constructor).
  exact (conj (conj H eq_refl)
           (loop_stops_at_first_blocking_line latin1_db pre [] post H eq_refl)).
Defined.

(** X13.  The loop returns an output exactly when no line of the list is
    an empty string or a lowercase-led line without a second token, and the
    output is then the conversion of the lowercase-led lines in their
    order.  The loop never raises the list assignment error nor
    [FileNotFoundError]. *)
Theorem loop_outcome (U : unicode_db) (lines : list str) :
  (forall output,
      transform U lines = Ok output <->
      Forall (fun l => blocking U l = false) lines /\
      output = map (converted U) (filter (first_is_lower U) lines))
  /\
  (forall e,
      transform U lines = Raise e ->
      e = IndexError StringIndex \/ e = IndexError ListIndex).
Proof.
  split.
  - intros output. rewrite transform_process. split.
    + intros Hp. pose proof (process_ok_good U lines [] output Hp) as Hgood.
      split; [assumption|].
      rewrite (process_good U lines [] Hgood) in Hp. now injection Hp as <-.
    + intros [Hgood ->]. now rewrite process_good.
  - intros e. rewrite transform_process. generalize (@nil str).
    induction lines as [|l lines IH]; intros output; [discriminate|].
    cbn [process]. destruct (blocking U l) eqn:Eb.
    + rewrite (step_blocking U l output Eb). intros H. injection H as <-.
      destruct l; [now left | now right].
    + destruct (step U l output) as [o|e'] eqn:Es; [apply IH|].
      apply blocking_false in Eb as [Hne Hp].
      rewrite step_nonempty in Es by assumption.
      unfold passes in Hp. destruct (first_is_lower U l); [|discriminate].
      cbn [negb orb] in Hp. rewrite Hp in Es. discriminate.
Qed.

(** X14.  The loop on two lists of lines one after the other is the loop on
    each: the output is the output of the first followed by the output of
    the second, and the exception is that of the first list when it raises
    one and that of the second list otherwise. *)
Theorem loop_on_appended_lines (U : unicode_db) (a b : list str) :
  transform U (a ++ b) =
  match transform U a with
  | Ok oa =>
      match transform U b with
      | Ok ob => Ok (oa ++ ob)
      | Raise e => Raise e
      end
  | Raise e => Raise e
  end.
Proof.
  rewrite !transform_process, process_app.
  destruct (process U a []) as [oa|e]; [|reflexivity].
  apply process_acc.
Qed.

(** ** Texts one after the other *)

Lemma universal_newlines_after_LF a :
  exists a',
    universal_newlines (a ++ [LF]) = a' ++ [LF] /\
    forall b, universal_newlines (a ++ LF :: b) = a' ++ LF :: universal_newlines b.
Proof.
  assert (H : (exists a',
                 universal_newlines (a ++ [LF]) = a' ++ [LF] /\
                 forall b, universal_newlines (a ++ LF :: b)
                           = a' ++ LF :: universal_newlines b) /\
              forall c, exists a',
                 universal_newlines ((c :: a) ++ [LF]) = a' ++ [LF] /\
                 forall b, universal_newlines ((c :: a) ++ LF :: b)
                           = a' ++ LF :: universal_newlines b).
  { induction a as [|d a [[a1 [E1 F1]] IH2]].
    - split; [exists []; split; reflexivity|].
      intros c. cbn [app universal_newlines].
      destruct (N.eqb_spec c CR).
      + exists []. split; reflexivity.
      + exists [c]. split; reflexivity.
    - split; [apply IH2|]. intros c.
      destruct (IH2 d) as [a2 [E2 F2]].
      cbn [app universal_newlines] in *.
      destruct (N.eqb_spec c CR).
      + destruct (N.eqb_spec d LF).
        * exists (LF :: a1). split; [now rewrite E1|].
          intros b. now rewrite F1.
        * exists (LF :: a2). split; [now rewrite E2|].
          intros b. now rewrite F2.
      + exists (c :: a2). split; [now rewrite E2|].
        intros b. now rewrite F2. }
  apply H.
Qed.

Lemma splitlines_keepends_after_LF a b :
  splitlines_keepends (a ++ LF :: b) =
  splitlines_keepends (a ++ [LF]) ++ splitlines_keepends b.
Proof.
  induction a as [|c a IH]; [reflexivity|].
  cbn [app splitlines_keepends]. rewrite IH.
  destruct (N.eqb c LF); [reflexivity|].
  destruct (splitlines_keepends (a ++ [LF])) as [|l ls] eqn:E; [|reflexivity].
  apply (f_equal (@concat _)) in E. rewrite concat_splitlines_keepends in E.
  now destruct a.
Qed.

Lemma readlines_after_LF a b :
  readlines (a ++ LF :: b) = readlines (a ++ [LF]) ++ readlines b.
Proof.
  unfold readlines. destruct (universal_newlines_after_LF a) as [a' [E F]].
  rewrite E, F. apply splitlines_keepends_after_LF.
Qed.

(** X15.  A text that follows a line break is read and converted on its
    own: the lines of the whole text are the lines of the part up to the line
    break followed by the lines of the part after it; the run on the whole
    text succeeds when the runs on both parts do, raises what the run on the
    first part raises and otherwise what the run on the second part raises,
    and writes the lines of the first run followed by those of the second. *)
Theorem run_on_appended_text (U : unicode_db) (a b : str) :
  readlines (a ++ LF :: b) = readlines (a ++ [LF]) ++ readlines b /\
  fst (run U (a ++ LF :: b)) =
    match fst (run U (a ++ [LF])) with
    | Ok _ => fst (run U b)
    | Raise e => Raise e
    end /\
  (fst (run U (a ++ LF :: b)) = Ok tt ->
   written (snd (run U (a ++ LF :: b))) =
   written (snd (run U (a ++ [LF]))) ++ written (snd (run U b))).
Proof.
  split; [apply readlines_after_LF|].
  rewrite !run_spec, readlines_after_LF, forallb_app, filter_app, map_app.
  destruct (forallb (passes U) (readlines (a ++ [LF])));
    destruct (forallb (passes U) (readlines b)); cbn [andb fst snd];
    (split; [reflexivity|]); try discriminate.
  intros _. now rewrite !written_after_success.
Qed.

Lemma run_on_appended_text_witness :
  let a := py "apple banana" in
  let b := py "Cherry date" ++ [LF] ++ py "elderberry Fig grape" ++ [LF] in
  fst (run latin1_db (a ++ LF :: b)) = Ok tt /\
  written (snd (run latin1_db (a ++ LF :: b))) =
  written (snd (run latin1_db (a ++ [LF]))) ++ written (snd (run latin1_db b)).
Proof.
  intros a b.
  assert (H : fst (run latin1_db (a ++ LF :: b)) = Ok tt) by reflexivity.
  exact (conj H (proj2 (proj2 (run_on_appended_text latin1_db a b)) H)).
Defined.

(** ** Assignment to a list item *)

Lemma list_setitem_in_range {A} (l : list A) (i : nat) (v : A) :
  i < length l ->
  list_setitem l i v = Ok (firstn i l ++ v :: skipn (S i) l).
Proof.
  revert i. induction l as [|a l IH]; intros i Hi; cbn [length] in Hi; [lia|].
  destruct i as [|i]; [reflexivity|].
  cbn [list_setitem firstn skipn app]. rewrite IH by lia. reflexivity.
Qed.

Lemma list_setitem_out_of_range {A} (l : list A) (i : nat) (v : A) :
  length l <= i -> list_setitem l i v = Raise (IndexError ListAssignment).
Proof.
  revert i. induction l as [|a l IH]; intros i Hi; [now destruct i|].
  cbn [length] in Hi. destruct i as [|i]; [lia|].
  cbn [list_setitem]. rewrite IH by lia. reflexivity.
Qed.

(** X16.  An assignment [l[i] = v] within the list gives a list of the same
    length in which item [i] reads [v] and every other item reads what it
    read before; an assignment at or beyond the length raises the list
    assignment error. *)
Theorem list_setitem_getitem {A} (l : list A) (i : nat) (v : A) :
  (i < length l ->
   exists l',
     list_setitem l i v = Ok l' /\
     length l' = length l /\
     list_getitem l' i = Ok v /\
     forall j, j <> i -> list_getitem l' j = list_getitem l j)
  /\
  (length l <= i -> list_setitem l i v = Raise (IndexError ListAssignment)).
Proof.
  split; [|apply list_setitem_out_of_range].
  intros Hi. exists (firstn i l ++ v :: skipn (S i) l).
  split; [now apply list_setitem_in_range|].
  assert (Hlen : length (firstn i l) = i) by (rewrite length_firstn; lia).
  split; [|split].
  - rewrite length_app. cbn [length]. rewrite length_skipn. lia.
  - unfold list_getitem. rewrite nth_error_app2 by lia.
    rewrite Hlen, Nat.sub_diag. reflexivity.
  - intros j Hj. unfold list_getitem.
    destruct (Nat.lt_ge_cases j i) as [Hlt|Hge].
    + rewrite nth_error_app1 by lia. now rewrite nth_error_firstn,
        (proj2 (Nat.ltb_lt j i) Hlt).
    + rewrite nth_error_app2 by lia. rewrite Hlen.
      destruct (j - i) as [|k] eqn:Ek; [lia|]. cbn [nth_error].
      rewrite nth_error_skipn. replace (S i + k) with j by lia.
      reflexivity.
Qed.

Lemma list_setitem_getitem_witness :
  let l := [py "apple"; py "banana"; py "cherry"] in
  (1 < length l /\
   exists l',
     list_setitem l 1 (py "Banana") = Ok l' /\
     length l' = length l /\
     list_getitem l' 1 = Ok (py "Banana") /\
     forall j, j <> 1 -> list_getitem l' j = list_getitem l j)
  /\
  (length l <= 3 /\
   list_setitem l 3 (py "Banana") = Raise (IndexError ListAssignment)).
Proof.
  intros l.
  assert (H1 : 1 < length l) by (cbn; repeat constructor).
  assert (H3 : length l <= 3) by (cbn; repeat constructor).
  split.
  - exact (conj H1 (proj1 (list_setitem_getitem l 1 (py "Banana")) H1)).
  - exact (conj H3 (proj2 (list_setitem_getitem l 3 (py "Banana")) H3)).
Defined.
